(** * Battlesnake move selector: shallow embedding of [main.go]

    The decision core of the server ([validMoves], [isValid], [isEdge],
    [isFood], [isSnake], [makeMove], [randomMove]) is embedded as Rocq
    functions over the request structures of the program.  Go's [int] is
    modelled as [Z] with 64-bit two's-complement wrap-around written out
    (the size [int] has on amd64 and arm64); [rand.Intn] and slice indexing
    may panic, which the [Run] monad records. *)

From stdpp Require Import base list strings.
From Stdlib Require Import ZArith Lia.

Local Open Scope string_scope.
Local Open Scope list_scope.
Local Open Scope Z_scope.

(** ** Go [int] arithmetic *)

Definition int_bits : Z := 64.
Definition min_int : Z := - 2 ^ (int_bits - 1).
Definition max_int : Z := 2 ^ (int_bits - 1) - 1.

(** Reduction of a mathematical integer to the signed [int] it is stored as. *)
Definition wrap (z : Z) : Z := (z - min_int) mod 2 ^ int_bits + min_int.

Definition int_add (a b : Z) : Z := wrap (a + b).
Definition int_sub (a b : Z) : Z := wrap (a - b).

(** The values an [int] variable can hold. *)
Definition is_int (z : Z) : Prop := min_int <= z <= max_int.

(** ** Request and response structures *)

Record Game := mkGame {
  Game_ID : string;
  Timeout : Z
}.

Record Coord := mkCoord {
  X : Z;
  Y : Z
}.

Record Battlesnake := mkBattlesnake {
  ID : string;
  Name : string;
  Health : Z;
  Body : list Coord;
  Head : Coord;
  Length : Z;
  Shout : string
}.

Record Board := mkBoard {
  Height : Z;
  Width : Z;
  Food : list Coord;
  Snakes : list Battlesnake
}.

Record GameRequest := mkGameRequest {
  Request_Game : Game;
  Turn : Z;
  Request_Board : Board;
  You : Battlesnake
}.

Record MoveResponse := mkMoveResponse {
  Move : string;
  Response_Shout : string
}.

(** [len(s)] of a slice, as an [int]. *)
Definition len {A : Type} (l : list A) : Z := Z.of_nat (length l).

(** ** Board predicates *)

Definition isEdge (pos : Coord) (board : Board) : bool :=
  (X pos >? int_sub (Width board) 1)
  || (Y pos >? int_add (Height board) 1)
  || (X pos <? 0)
  || (Y pos <? 0).

(** The loop of [isFood] over [board.Food], returning at the first match. *)
Fixpoint isFood_loop (pos : Coord) (food : list Coord) : bool :=
  match food with
  | [] => false
  | coord :: rest =>
      if (Y coord =? Y pos) && (X coord =? X pos) then true
      else isFood_loop pos rest
  end.

Definition isFood (pos : Coord) (board : Board) : bool :=
  isFood_loop pos (Food board).

(** The inner loop of [isSnake] over one snake's [Body]. *)
Fixpoint isSnake_body (pos : Coord) (body : list Coord) : bool :=
  match body with
  | [] => false
  | coord :: rest =>
      if (Y coord =? Y pos) && (X coord =? X pos) then true
      else isSnake_body pos rest
  end.

(** The outer loop of [isSnake] over [board.Snakes]: the body first, then
    the separately stored head. *)
Fixpoint isSnake_loop (pos : Coord) (snakes : list Battlesnake) : bool :=
  match snakes with
  | [] => false
  | snake :: rest =>
      if isSnake_body pos (Body snake) then true
      else if (Y (Head snake) =? Y pos) && (X (Head snake) =? X pos) then true
      else isSnake_loop pos rest
  end.

Definition isSnake (pos : Coord) (board : Board) : bool :=
  isSnake_loop pos (Snakes board).

Definition isValid (pos : Coord) (board : Board) : bool :=
  negb (isEdge pos board) && negb (isSnake pos board).

(** ** Safe moves *)

Definition validMoves (pos : Coord) (board : Board) : list string :=
  let moves : list string := [] in
  let left := {| X := int_sub (X pos) 1; Y := Y pos |} in
  let moves := if isValid left board then moves ++ ["left"] else moves in
  let right := {| X := int_add (X pos) 1; Y := Y pos |} in
  let moves := if isValid right board then moves ++ ["right"] else moves in
  let down := {| X := X pos; Y := int_add (Y pos) 1 |} in
  let moves := if isValid down board then moves ++ ["down"] else moves in
  let up := {| X := X pos; Y := int_sub (Y pos) 1 |} in
  let moves := if isValid up board then moves ++ ["up"] else moves in
  moves.

(** ** Computations that draw random numbers and may panic *)

Inductive outcome (A : Type) : Type :=
  | Returns (a : A)
  | Panics.
Arguments Returns {A} a.
Arguments Panics {A}.

(** A computation threading the state [S] of the process-wide generator. *)
Definition Run (S A : Type) : Type := S -> outcome (A * S).

Definition ret {S A : Type} (a : A) : Run S A := fun s => Returns (a, s).

Definition bind {S A B : Type} (m : Run S A) (k : A -> Run S B) : Run S B :=
  fun s =>
    match m s with
    | Returns (a, s') => k a s'
    | Panics => Panics
    end.

Definition panic {S A : Type} : Run S A := fun _ => Panics.

Notation "x <- m ;; k" := (bind m (fun x => k))
  (at level 100, m at next level, right associativity).

(** [s[i]] for a slice of strings: a run-time panic outside [0, len(s)). *)
Definition index {S : Type} (l : list string) (i : Z) : Run S string :=
  if (i <? 0) || (len l <=? i) then panic
  else match l !! Z.to_nat i with
       | Some m => ret m
       | None => panic
       end.

Section Selector.

(** The default source of [math/rand]: [draw s n] is the number the source
    in state [s] hands out for a positive bound [n], with its next state. *)
Variable Source : Type.
Variable draw : Source -> Z -> Z * Source.

(** [rand.Intn(n)]: panics if [n <= 0]. *)
Definition Intn (n : Z) : Run Source Z :=
  fun s => if n <=? 0 then Panics else Returns (draw s n).

Definition randomMove : Run Source MoveResponse :=
  let possibleMoves := ["up"; "down"; "left"; "right"] in
  i <- Intn (len possibleMoves) ;;
  move <- index possibleMoves i ;;
  ret {| Move := move; Response_Shout := EmptyString |}.

Definition makeMove (game : GameRequest) : Run Source MoveResponse :=
  let possibleMoves := validMoves (Head (You game)) (Request_Board game) in
  if len possibleMoves =? 0 then randomMove
  else
    i <- Intn (len possibleMoves) ;;
    move <- index possibleMoves i ;;
    ret {| Move := move; Response_Shout := EmptyString |}.

End Selector.

Arguments Intn {Source} draw n.
Arguments randomMove {Source} draw.
Arguments makeMove {Source} draw game.

(** ** Vocabulary for the statements *)

(** The four symbolic directions, in the order [validMoves] tries them. *)
Inductive Direction : Type :=
  | MoveLeft
  | MoveRight
  | MoveDown
  | MoveUp.

Definition allDirections : list Direction :=
  [MoveLeft; MoveRight; MoveDown; MoveUp].

(** The string [validMoves] appends for a direction. *)
Definition dirName (d : Direction) : string :=
  match d with
  | MoveLeft => "left"
  | MoveRight => "right"
  | MoveDown => "down"
  | MoveUp => "up"
  end.

(** The coordinate [validMoves] builds for a direction (its locals [left],
    [right], [down] and [up]). *)
Definition offset (d : Direction) (pos : Coord) : Coord :=
  match d with
  | MoveLeft => {| X := int_sub (X pos) 1; Y := Y pos |}
  | MoveRight => {| X := int_add (X pos) 1; Y := Y pos |}
  | MoveDown => {| X := X pos; Y := int_add (Y pos) 1 |}
  | MoveUp => {| X := X pos; Y := int_sub (Y pos) 1 |}
  end.

(** Position of a move string in the order left, right, down, up. *)
Definition moveRank (m : string) : nat :=
  if decide (m = "left") then 0
  else if decide (m = "right") then 1
  else if decide (m = "down") then 2
  else if decide (m = "up") then 3
  else 4.

(** The move strings the game server accepts. *)
Definition directions : list string := ["up"; "down"; "left"; "right"].

(** Some snake of the board has [pos] among its body segments or as its
    head coordinate. *)
Definition occupied (pos : Coord) (board : Board) : Prop :=
  ∃ snake, snake ∈ Snakes board ∧ (pos ∈ Body snake ∨ pos = Head snake).

(** What the occupancy check reads of a snake: its segments and its head,
    not its identity. *)
Definition footprint (snake : Battlesnake) : list Coord * Coord :=
  (Body snake, Head snake).

(** Two requests that differ at most in the food list of their boards. *)
Definition sameExceptFood (g1 g2 : GameRequest) : Prop :=
  Request_Game g1 = Request_Game g2
  ∧ Turn g1 = Turn g2
  ∧ You g1 = You g2
  ∧ Height (Request_Board g1) = Height (Request_Board g2)
  ∧ Width (Request_Board g1) = Width (Request_Board g2)
  ∧ Snakes (Request_Board g1) = Snakes (Request_Board g2).

(** The members [encoding/json] writes for a [MoveResponse] under its struct
    tags: [move] always, [shout] only when non-empty ([omitempty]). *)
Definition encodedMembers (r : MoveResponse) : list (string * string) :=
  ("move", Move r)
  :: (if decide (Response_Shout r = EmptyString) then []
      else [("shout", Response_Shout r)]).

(** A concrete generator for running the selector: a counter reduced
    modulo the bound. *)
Definition counterDraw (s : Z) (n : Z) : Z * Z := (s mod n, s + 1).

(** ** Boards and requests used as examples *)

Definition snakeAt (id : string) (body : list Coord) (head : Coord)
  : Battlesnake :=
  {| ID := id; Name := id; Health := 100; Body := body; Head := head;
     Length := len body; Shout := EmptyString |}.

Definition me : Battlesnake := snakeAt "me" [mkCoord 5 5] (mkCoord 5 5).

(** Head at (5,5); an opposing snake covers the right and the upper
    neighbour. *)
Definition rival : Battlesnake :=
  snakeAt "rival" [mkCoord 6 5; mkCoord 6 4; mkCoord 5 4] (mkCoord 6 5).

Definition scenarioC : Board :=
  {| Height := 11; Width := 11; Food := []; Snakes := [me; rival] |}.

(** Head at (5,5) with all four neighbours taken by the agent's own body. *)
Definition coiled : Battlesnake :=
  snakeAt "me"
    [mkCoord 5 5; mkCoord 4 5; mkCoord 4 4; mkCoord 5 4; mkCoord 6 4;
     mkCoord 6 5; mkCoord 6 6; mkCoord 5 6]
    (mkCoord 5 5).

Definition scenarioD : Board :=
  {| Height := 11; Width := 11; Food := []; Snakes := [coiled] |}.

(** The same trap built by an opponent, on a board with food. *)
Definition scenarioD' : Board :=
  {| Height := 11; Width := 11; Food := [mkCoord 0 0];
     Snakes := [me; snakeAt "rival"
                      [mkCoord 4 5; mkCoord 4 4; mkCoord 5 4; mkCoord 6 4;
                       mkCoord 6 5; mkCoord 6 6; mkCoord 5 6; mkCoord 4 6]
                      (mkCoord 4 5)] |}.

Definition requestOn (turn : Z) (board : Board) (you : Battlesnake)
  : GameRequest :=
  {| Request_Game := {| Game_ID := "g"; Timeout := 500 |};
     Turn := turn; Request_Board := board; You := you |}.

(** The agent (identity "me") coiled so that its own body takes the left,
    upper and right neighbours of its head at (5,5). *)
Definition selfBlocked : Board :=
  {| Height := 11; Width := 11; Food := [];
     Snakes := [snakeAt "me"
                  [mkCoord 5 5; mkCoord 4 5; mkCoord 4 4; mkCoord 5 4;
                   mkCoord 6 4; mkCoord 6 5]
                  (mkCoord 5 5)] |}.

(** The same cells taken by a snake of another identity. *)
Definition rivalBlocked : Board :=
  {| Height := 11; Width := 11; Food := [];
     Snakes := [snakeAt "rival"
                  [mkCoord 5 5; mkCoord 4 5; mkCoord 4 4; mkCoord 5 4;
                   mkCoord 6 4; mkCoord 6 5]
                  (mkCoord 5 5)] |}.

(** [scenarioC] with food on the two cells that are safe to enter. *)
Definition scenarioCFood : Board :=
  {| Height := 11; Width := 11; Food := [mkCoord 4 5; mkCoord 5 6];
     Snakes := [me; rival] |}.

(** Another account of the agent with the same head: a longer body that
    the board does not list, other health and length. *)
Definition meElsewhere : Battlesnake :=
  {| ID := "me"; Name := "me"; Health := 42;
     Body := [mkCoord 5 5; mkCoord 4 5; mkCoord 4 6]; Head := mkCoord 5 5;
     Length := 3; Shout := "hiss" |}.

Definition laterRequest : GameRequest :=
  {| Request_Game := {| Game_ID := "h"; Timeout := 250 |};
     Turn := 77; Request_Board := scenarioC; You := meElsewhere |}.

(** An 11x11 board with no food and the agent alone, one segment long. *)
Definition loneBoard (head : Coord) : Board :=
  {| Height := 11; Width := 11; Food := [];
     Snakes := [snakeAt "me" [head] head] |}.

(** A board as tall as an [int] can say. *)
Definition tallBoard : Board :=
  {| Height := max_int; Width := 11; Food := []; Snakes := [] |}.

(** [pos] is a cell of the board proper: a column in [0, w-1] and a row in
    [0, h-1]. *)
Definition onBoard (pos : Coord) (board : Board) : Prop :=
  0 <= X pos <= Width board - 1 ∧ 0 <= Y pos <= Height board - 1.

(** The board with further snakes listed after its own. *)
Definition withSnakes (extra : list Battlesnake) (board : Board) : Board :=
  {| Height := Height board; Width := Width board; Food := Food board;
     Snakes := Snakes board ++ extra |}.

(** The request a body without any member decodes to: every field at its
    zero value, slices nil. *)
Definition zeroRequest : GameRequest :=
  {| Request_Game := {| Game_ID := EmptyString; Timeout := 0 |};
     Turn := 0;
     Request_Board := {| Height := 0; Width := 0; Food := []; Snakes := [] |};
     You := {| ID := EmptyString; Name := EmptyString; Health := 0;
               Body := []; Head := mkCoord 0 0; Length := 0;
               Shout := EmptyString |} |}.

(** A snake lying along the top row, away from the middle of the board. *)
Definition bystander : Battlesnake :=
  snakeAt "far" [mkCoord 0 0; mkCoord 1 0; mkCoord 2 0] (mkCoord 0 0).

(** ** Go [int] arithmetic: facts *)

Lemma wrap_exact (z : Z) : is_int z → wrap z = z.
Proof.
  unfold is_int, wrap, min_int, max_int, int_bits. intros Hz.
  rewrite Z.mod_small; lia.
Qed.

Lemma wrap_is_int (z : Z) : is_int (wrap z).
Proof.
  unfold is_int, wrap, min_int, max_int, int_bits.
  pose proof (Z.mod_pos_bound (z - - 2 ^ (64 - 1)) (2 ^ 64) ltac:(lia)).
  lia.
Qed.

Lemma int_sub_exact (a : Z) : min_int < a <= max_int → int_sub a 1 = a - 1.
Proof. intros Ha. apply wrap_exact. unfold is_int. lia. Qed.

Lemma int_add_exact (a : Z) : min_int <= a < max_int → int_add a 1 = a + 1.
Proof. intros Ha. apply wrap_exact. unfold is_int. lia. Qed.

(** ** Occupancy: the loops find exactly the listed coordinates *)

Lemma coord_eqb_true (c pos : Coord) :
  (Y c =? Y pos) && (X c =? X pos) = true ↔ pos = c.
Proof.
  rewrite andb_true_iff, !Z.eqb_eq. destruct c, pos; simpl.
  split; [intros [-> ->]; reflexivity | intros [= -> ->]; done].
Qed.

Lemma isSnake_body_true (pos : Coord) (body : list Coord) :
  isSnake_body pos body = true ↔ pos ∈ body.
Proof.
  induction body as [|coord rest IH]; simpl.
  - split; [discriminate | intros H; inversion H].
  - rewrite elem_of_cons, <- IH, <- coord_eqb_true.
    destruct ((Y coord =? Y pos) && (X coord =? X pos)); intuition congruence.
Qed.

Lemma isSnake_loop_true (pos : Coord) (snakes : list Battlesnake) :
  isSnake_loop pos snakes = true
  ↔ ∃ snake, snake ∈ snakes ∧ (pos ∈ Body snake ∨ pos = Head snake).
Proof.
  induction snakes as [|snake rest IH]; simpl.
  - split; [discriminate | intros (s & Hs & _); inversion Hs].
  - destruct (isSnake_body pos (Body snake)) eqn:Hbody.
    { apply isSnake_body_true in Hbody. split; [|done].
      intros _. exists snake. split; [left | by left]. }
    destruct ((Y (Head snake) =? Y pos) && (X (Head snake) =? X pos)) eqn:Hhead.
    { apply coord_eqb_true in Hhead. split; [|done].
      intros _. exists snake. split; [left | by right]. }
    rewrite IH. split.
    + intros (s & Hs & Hocc). exists s. split; [by right | done].
    + intros (s & Hs & Hocc). apply elem_of_cons in Hs as [-> | Hs].
      * destruct Hocc as [Hin | Heq].
        -- apply isSnake_body_true in Hin. congruence.
        -- apply coord_eqb_true in Heq. congruence.
      * by exists s.
Qed.

Lemma isSnake_true (pos : Coord) (board : Board) :
  isSnake pos board = true ↔ occupied pos board.
Proof. apply isSnake_loop_true. Qed.

Lemma isSnake_false (pos : Coord) (board : Board) :
  isSnake pos board = false ↔ ¬ occupied pos board.
Proof.
  rewrite <- isSnake_true. destruct (isSnake pos board); naive_solver.
Qed.

Lemma isValid_true (pos : Coord) (board : Board) :
  isValid pos board = true
  ↔ isEdge pos board = false ∧ isSnake pos board = false.
Proof.
  unfold isValid. rewrite andb_true_iff, !negb_true_iff. done.
Qed.

(** ** The safe moves as a filter of the four directions *)

Lemma validMoves_filter (pos : Coord) (board : Board) :
  validMoves pos board
  = dirName <$> filter (λ d, isValid (offset d pos) board = true) allDirections.
Proof.
  unfold validMoves, allDirections.
  rewrite !filter_cons, filter_nil. simpl offset.
  repeat match goal with
         | |- context [isValid ?c board] =>
             destruct (isValid c board) eqn:?
         end;
    repeat case_decide; try done.
Qed.

Lemma validMoves_elem (pos : Coord) (board : Board) (m : string) :
  m ∈ validMoves pos board
  ↔ ∃ d, m = dirName d ∧ isValid (offset d pos) board = true.
Proof.
  rewrite validMoves_filter, list_elem_of_fmap.
  split.
  - intros (d & -> & Hd). apply list_elem_of_filter in Hd as [Hd _]. eauto.
  - intros (d & -> & Hd). exists d. split; [done|].
    apply list_elem_of_filter. split; [done|].
    unfold allDirections. destruct d; repeat constructor.
Qed.

Lemma dirName_inj (d1 d2 : Direction) : dirName d1 = dirName d2 → d1 = d2.
Proof. destruct d1, d2; simpl; intros H; try reflexivity; discriminate H. Qed.

Lemma dirName_directions (d : Direction) : dirName d ∈ directions.
Proof. unfold directions. destruct d; simpl; repeat constructor. Qed.

Lemma validMoves_directions (pos : Coord) (board : Board) (m : string) :
  m ∈ validMoves pos board → m ∈ directions.
Proof.
  intros (d & -> & _)%validMoves_elem. apply dirName_directions.
Qed.

(** ** The bounds rule *)

Lemma isEdge_true (pos : Coord) (board : Board) :
  isEdge pos board = true
  ↔ X pos > int_sub (Width board) 1 ∨ X pos < 0 ∨ Y pos < 0
    ∨ Y pos > int_add (Height board) 1.
Proof.
  unfold isEdge. rewrite !orb_true_iff, !Z.gtb_gt, !Z.ltb_lt. tauto.
Qed.

Lemma isEdge_false (pos : Coord) (board : Board) :
  isEdge pos board = false
  ↔ 0 <= X pos <= int_sub (Width board) 1
    ∧ 0 <= Y pos <= int_add (Height board) 1.
Proof.
  unfold isEdge.
  rewrite !orb_false_iff, !Z.gtb_ltb, !Z.ltb_ge. lia.
Qed.

(** ** Safety filter *)

(** C1: a direction's string is among [validMoves pos board] exactly when the
    coordinate one step from [pos] in that direction is not rejected by
    [isEdge] and not reported by [isSnake]; [isSnake] is false exactly when no
    snake of the board has the coordinate as a body segment or as its head;
    and the list holds nothing but direction strings. *)
Theorem validMoves_safe_iff (pos : Coord) (board : Board) (d : Direction) :
  (dirName d ∈ validMoves pos board
   ↔ isEdge (offset d pos) board = false
     ∧ isSnake (offset d pos) board = false)
  ∧ (isSnake (offset d pos) board = false
     ↔ (∀ snake, snake ∈ Snakes board
          → (offset d pos ∉ Body snake) ∧ offset d pos ≠ Head snake))
  ∧ (∀ m, m ∈ validMoves pos board
          ↔ (∃ d', m = dirName d'
               ∧ isEdge (offset d' pos) board = false
               ∧ isSnake (offset d' pos) board = false)).
Proof.
  split; [|split].
  - rewrite validMoves_elem, <- isValid_true. split.
    + intros (d' & Hname & Hd'). by apply dirName_inj in Hname as ->.
    + intros Hd. by exists d.
  - rewrite isSnake_false. unfold occupied. split.
    + intros Hfree snake Hsnake. split.
      * intros Hin. apply Hfree. exists snake. by split; [|left].
      * intros Heq. apply Hfree. exists snake. by split; [|right].
    + intros Hfree (snake & Hsnake & Hocc).
      destruct (Hfree snake Hsnake) as [Hbody Hhead]. by destruct Hocc.
  - intros m. rewrite validMoves_elem.
    split; intros (d' & Hname & Hd'); exists d'; split; try done;
      by apply isValid_true.
Qed.

(** C2, as amended: when [h + 1] does not overflow the program's 64-bit
    [int] (that is, [h < 2^63 - 1]), [isEdge] rejects a coordinate exactly
    when [x > w - 1] or [x < 0] or [y < 0] or [y > h + 1], where [w - 1] is
    taken in [int] arithmetic (exact for every [w > -2^63]); so in an
    accepted column the rows [y = h] (for [h >= 0]) and [y = h + 1] (for
    [h >= -1]) are accepted. *)
Theorem isEdge_rule (pos : Coord) (board : Board) :
  min_int <= Height board < max_int →
  (isEdge pos board = true
   ↔ X pos > int_sub (Width board) 1 ∨ X pos < 0 ∨ Y pos < 0
     ∨ Y pos > Height board + 1)
  ∧ (0 <= X pos <= int_sub (Width board) 1 → 0 <= Height board
     → Y pos = Height board → isEdge pos board = false)
  ∧ (0 <= X pos <= int_sub (Width board) 1 → -1 <= Height board
     → Y pos = Height board + 1 → isEdge pos board = false)
  ∧ (min_int < Width board <= max_int
     → int_sub (Width board) 1 = Width board - 1).
Proof.
  intros Hh. rewrite isEdge_true, !isEdge_false, (int_add_exact _ Hh).
  split; [|split; [|split]];
    [split; intros; lia | intros; lia | intros; lia | apply int_sub_exact].
Qed.

Lemma isEdge_rule_witness :
  (isEdge (mkCoord 3 11) scenarioC = false
   ∧ isEdge (mkCoord 3 12) scenarioC = false)
  ∧ isEdge (mkCoord 3 13) scenarioC = true.
Proof.
  assert (Hh : min_int <= Height scenarioC < max_int) by (by vm_compute).
  destruct (isEdge_rule (mkCoord 3 11) scenarioC Hh) as (_ & Hrow & _ & _).
  destruct (isEdge_rule (mkCoord 3 12) scenarioC Hh) as (_ & _ & Hbelow & _).
  destruct (isEdge_rule (mkCoord 3 13) scenarioC Hh) as (Hiff & _ & _ & _).
  split; [split|].
  - by apply Hrow; vm_compute.
  - by apply Hbelow; vm_compute.
  - apply Hiff. right. right. right. by vm_compute.
Defined.

(** C2, as stated, fails where [h + 1] wraps around: on a board of height
    [2^63 - 1] the coordinate [(0, h)] lies in an accepted column, has
    [y = h], and satisfies none of [x > w - 1], [x < 0], [y < 0],
    [y > h + 1], yet [isEdge] rejects it. *)
Lemma isEdge_rejects_row_h_at_max_height :
  let pos := mkCoord 0 max_int in
  Y pos = Height tallBoard
  ∧ 0 <= X pos <= Width tallBoard - 1
  ∧ ¬ (X pos > Width tallBoard - 1 ∨ X pos < 0 ∨ Y pos < 0
       ∨ Y pos > Height tallBoard + 1)
  ∧ isEdge pos tallBoard = true.
Proof.
  simpl. repeat split; try (by vm_compute).
  unfold tallBoard, max_int, int_bits. simpl. lia.
Qed.

(** ** Occupancy does not look at identities *)

Lemma isSnake_loop_footprint (pos : Coord) (snakes1 snakes2 : list Battlesnake) :
  footprint <$> snakes1 = footprint <$> snakes2 →
  isSnake_loop pos snakes1 = isSnake_loop pos snakes2.
Proof.
  revert snakes2.
  induction snakes1 as [|s1 rest1 IH]; intros [|s2 rest2] Hfp;
    try discriminate Hfp; [reflexivity|].
  rewrite !fmap_cons in Hfp. injection Hfp as Hbody Hhead Hrest.
  simpl. rewrite Hbody, Hhead, (IH rest2 Hrest). reflexivity.
Qed.

Lemma blocked_not_valid (pos : Coord) (board : Board) (d : Direction) :
  isSnake (offset d pos) board = true → dirName d ∉ validMoves pos board.
Proof.
  intros Hocc (d' & Hname & Hd')%validMoves_elem.
  apply dirName_inj in Hname as <-.
  apply isValid_true in Hd' as [_ Hfree]. congruence.
Qed.

(** C5: for every request, a coordinate that is a body segment of any snake
    listed on the board, the agent's own entry (same [ID] as [You]) as much
    as an opponent's, is reported by [isSnake], and a direction leading to
    it is left out of the safe moves; the check reads only the segments and
    heads of the snakes, so boards whose snakes differ in identity alone
    have the same occupancy. *)
Theorem occupancy_no_self_bias (game : GameRequest) :
  let board := Request_Board game in
  let head := Head (You game) in
  (∀ snake c, snake ∈ Snakes board → c ∈ Body snake →
     isSnake c board = true
     ∧ isValid c board = false
     ∧ (∀ d, offset d head = c → dirName d ∉ validMoves head board))
  ∧ (You game ∈ Snakes board →
     ∀ c, c ∈ Body (You game) → isSnake c board = true)
  ∧ (∀ board' pos,
       footprint <$> Snakes board' = footprint <$> Snakes board →
       isSnake pos board' = isSnake pos board).
Proof.
  intros board head.
  assert (Hseg : ∀ snake c, snake ∈ Snakes board → c ∈ Body snake →
                 isSnake c board = true).
  { intros snake c Hsnake Hc. apply isSnake_true.
    exists snake. by split; [|left]. }
  split; [|split].
  - intros snake c Hsnake Hc.
    pose proof (Hseg snake c Hsnake Hc) as Hocc.
    split; [done|]. split.
    + unfold isValid. rewrite Hocc. apply andb_false_r.
    + intros d <-. by apply blocked_not_valid.
  - intros Hyou c Hc. by apply (Hseg (You game)).
  - intros board' pos Hfp. by apply isSnake_loop_footprint.
Qed.

Lemma occupancy_no_self_bias_witness :
  validMoves (mkCoord 5 5) selfBlocked = ["down"]
  ∧ ("left" ∉ validMoves (mkCoord 5 5) selfBlocked)
  ∧ ("right" ∉ validMoves (mkCoord 5 5) selfBlocked)
  ∧ ("up" ∉ validMoves (mkCoord 5 5) selfBlocked)
  ∧ isSnake (mkCoord 4 5) rivalBlocked = isSnake (mkCoord 4 5) selfBlocked.
Proof.
  pose (game := requestOn 3 selfBlocked
    (snakeAt "me"
       [mkCoord 5 5; mkCoord 4 5; mkCoord 4 4; mkCoord 5 4;
        mkCoord 6 4; mkCoord 6 5]
       (mkCoord 5 5))).
  destruct (occupancy_no_self_bias game) as (Hblock & _ & Hblind).
  assert (Hme : You game ∈ Snakes (Request_Board game)) by left.
  split; [by vm_compute|]. split; [|split; [|split]].
  - destruct (Hblock (You game) (mkCoord 4 5) Hme) as (_ & _ & Hdir).
    + unfold game; simpl. right. left.
    + apply (Hdir MoveLeft). by vm_compute.
  - destruct (Hblock (You game) (mkCoord 6 5) Hme) as (_ & _ & Hdir).
    + unfold game; simpl. do 5 right. left.
    + apply (Hdir MoveRight). by vm_compute.
  - destruct (Hblock (You game) (mkCoord 5 4) Hme) as (_ & _ & Hdir).
    + unfold game; simpl. do 3 right. left.
    + apply (Hdir MoveUp). by vm_compute.
  - apply (Hblind rivalBlocked (mkCoord 4 5)). by vm_compute.
Defined.

(** ** Directions and their neighbours *)

Lemma validMoves_dir (pos : Coord) (board : Board) (d : Direction) :
  dirName d ∈ validMoves pos board ↔ isValid (offset d pos) board = true.
Proof.
  rewrite validMoves_elem. split.
  - intros (d' & Hname & Hd'). by apply dirName_inj in Hname as ->.
  - intros Hd. by exists d.
Qed.

Lemma validMoves_of_flags (pos : Coord) (board : Board) (l r d u : bool) :
  isValid (offset MoveLeft pos) board = l →
  isValid (offset MoveRight pos) board = r →
  isValid (offset MoveDown pos) board = d →
  isValid (offset MoveUp pos) board = u →
  validMoves pos board
  = (if l then ["left"] else []) ++ (if r then ["right"] else [])
    ++ (if d then ["down"] else []) ++ (if u then ["up"] else []).
Proof.
  unfold validMoves. simpl offset. intros -> -> -> ->.
  by destruct l, r, d, u.
Qed.

(** C7: [validMoves] keeps "left" for the neighbour [(x-1, y)], "right" for
    [(x+1, y)], "down" for [(x, y+1)] and "up" for [(x, y-1)] (in [int]
    arithmetic, exact away from the extremes of [int]); on an 11x11 board
    with the head at (5,5) whose snakes cover (6,5) and (5,4) and neither
    (4,5) nor (5,6), the safe moves are exactly "left" and "down", as on
    the board [scenarioC]. *)
Theorem direction_offsets (pos : Coord) (board : Board) :
  ("left" ∈ validMoves pos board
   ↔ isValid {| X := int_sub (X pos) 1; Y := Y pos |} board = true)
  ∧ ("right" ∈ validMoves pos board
     ↔ isValid {| X := int_add (X pos) 1; Y := Y pos |} board = true)
  ∧ ("down" ∈ validMoves pos board
     ↔ isValid {| X := X pos; Y := int_add (Y pos) 1 |} board = true)
  ∧ ("up" ∈ validMoves pos board
     ↔ isValid {| X := X pos; Y := int_sub (Y pos) 1 |} board = true)
  ∧ (min_int < X pos < max_int → min_int < Y pos < max_int →
     int_sub (X pos) 1 = X pos - 1 ∧ int_add (X pos) 1 = X pos + 1
     ∧ int_add (Y pos) 1 = Y pos + 1 ∧ int_sub (Y pos) 1 = Y pos - 1)
  ∧ (Width board = 11 → Height board = 11 →
     occupied (mkCoord 6 5) board → occupied (mkCoord 5 4) board →
     ¬ occupied (mkCoord 4 5) board → ¬ occupied (mkCoord 5 6) board →
     validMoves (mkCoord 5 5) board = ["left"; "down"])
  ∧ validMoves (mkCoord 5 5) scenarioC = ["left"; "down"].
Proof.
  split; [apply (validMoves_dir pos board MoveLeft)|].
  split; [apply (validMoves_dir pos board MoveRight)|].
  split; [apply (validMoves_dir pos board MoveDown)|].
  split; [apply (validMoves_dir pos board MoveUp)|].
  split.
  { intros Hx Hy.
    rewrite !int_sub_exact, !int_add_exact by lia. done. }
  split; [|reflexivity].
  intros Hw Hh Hright Hup Hleft Hdown.
  apply isSnake_true in Hright, Hup. apply isSnake_false in Hleft, Hdown.
  assert (Hin : ∀ c, 0 <= X c <= 10 → 0 <= Y c <= 12 → isEdge c board = false).
  { intros c Hx Hy. apply isEdge_false. rewrite Hw, Hh. by vm_compute. }
  apply (validMoves_of_flags _ _ true false true false);
    unfold isValid; simpl offset;
    change (int_sub 5 1) with 4; change (int_add 5 1) with 6.
  - rewrite Hin, Hleft; [done | by vm_compute ..].
  - rewrite Hright. apply andb_false_r.
  - rewrite Hin, Hdown; [done | by vm_compute ..].
  - rewrite Hup. apply andb_false_r.
Qed.

Lemma direction_offsets_witness :
  int_sub 5 1 = 4 ∧ validMoves (mkCoord 5 5) scenarioC = ["left"; "down"].
Proof.
  destruct (direction_offsets (mkCoord 5 5) scenarioC)
    as (_ & _ & _ & _ & Hexact & Hscenario & _).
  split.
  - apply Hexact; by vm_compute.
  - apply Hscenario; try reflexivity.
    + exists rival. split; [right; left | right; reflexivity].
    + exists rival. split; [right; left | left; right; right; left].
    + apply isSnake_false. by vm_compute.
    + apply isSnake_false. by vm_compute.
Defined.

(** ** Shape of the list of safe moves *)

Lemma validMoves_cases (pos : Coord) (board : Board) :
  ∃ l r d u : bool,
    validMoves pos board
    = (if l then ["left"] else []) ++ (if r then ["right"] else [])
      ++ (if d then ["down"] else []) ++ (if u then ["up"] else []).
Proof.
  eexists _, _, _, _. by apply validMoves_of_flags.
Qed.

(** C10: the list returned by [validMoves] has no repeated element, has at
    most four elements, and is a subsequence of left, right, down, up: of two
    elements, the one at the earlier index comes earlier in that order. *)
Theorem validMoves_ordered (pos : Coord) (board : Board) :
  NoDup (validMoves pos board)
  ∧ (length (validMoves pos board) ≤ 4)%nat
  ∧ validMoves pos board `sublist_of` ["left"; "right"; "down"; "up"]
  ∧ (∀ (i j : nat) (a b : string),
       (i < j)%nat →
       validMoves pos board !! i = Some a →
       validMoves pos board !! j = Some b →
       (moveRank a < moveRank b)%nat).
Proof.
  destruct (validMoves_cases pos board) as (l & r & d & u & ->).
  split; [|split; [|split]].
  - destruct l, r, d, u; simpl;
      repeat (apply NoDup_cons; split;
              [rewrite list_elem_of_In; simpl; intuition discriminate|]);
      apply NoDup_nil_2.
  - destruct l, r, d, u; simpl; lia.
  - destruct l, r, d, u; simpl;
      repeat first [apply sublist_nil | apply sublist_skip | apply sublist_cons].
  - intros i j a b Hij Hi Hj.
    destruct l, r, d, u; simpl in Hi, Hj;
      repeat (destruct i as [|i]; simpl in Hi; try discriminate Hi);
      repeat (destruct j as [|j]; simpl in Hj; try discriminate Hj);
      try lia;
      injection Hi as <-; injection Hj as <-; vm_compute; lia.
Qed.

(** ** The selector reads the head and the board, nothing else *)

Lemma counterDraw_range (s n : Z) : 0 < n → 0 <= (counterDraw s n).1 < n.
Proof. intros Hn. simpl. apply Z.mod_pos_bound, Hn. Qed.

Lemma isValid_same_board (pos : Coord) (b1 b2 : Board) :
  Height b1 = Height b2 → Width b1 = Width b2 → Snakes b1 = Snakes b2 →
  isValid pos b1 = isValid pos b2.
Proof.
  intros Hh Hw Hs. unfold isValid, isEdge, isSnake.
  rewrite Hh, Hw, Hs. reflexivity.
Qed.

Lemma validMoves_same_board (pos : Coord) (b1 b2 : Board) :
  Height b1 = Height b2 → Width b1 = Width b2 → Snakes b1 = Snakes b2 →
  validMoves pos b1 = validMoves pos b2.
Proof.
  intros Hh Hw Hs. unfold validMoves.
  rewrite !(isValid_same_board _ b1 b2 Hh Hw Hs). reflexivity.
Qed.

Section Determinism.

Context {Source : Type} (draw : Source → Z → Z * Source).

Lemma makeMove_same_moves (g1 g2 : GameRequest) (s : Source) :
  validMoves (Head (You g1)) (Request_Board g1)
  = validMoves (Head (You g2)) (Request_Board g2) →
  makeMove draw g1 s = makeMove draw g2 s.
Proof. unfold makeMove. intros ->. reflexivity. Qed.

Lemma makeMove_fallback (game : GameRequest) (s : Source) :
  validMoves (Head (You game)) (Request_Board game) = [] →
  makeMove draw game s = randomMove draw s.
Proof. unfold makeMove. intros ->. reflexivity. Qed.

(** C6: two requests that differ at most in the food list get the same
    verdict from [isValid] at every coordinate, the same list of safe moves
    and, from the same state of the random source, the same outcome of
    [makeMove]. *)
Theorem food_never_matters (g1 g2 : GameRequest) :
  sameExceptFood g1 g2 →
  (∀ pos, isValid pos (Request_Board g1) = isValid pos (Request_Board g2))
  ∧ validMoves (Head (You g1)) (Request_Board g1)
    = validMoves (Head (You g2)) (Request_Board g2)
  ∧ (∀ s, makeMove draw g1 s = makeMove draw g2 s).
Proof.
  intros (_ & _ & Hyou & Hh & Hw & Hs).
  assert (Hmoves : validMoves (Head (You g1)) (Request_Board g1)
                   = validMoves (Head (You g2)) (Request_Board g2)).
  { rewrite Hyou. by apply validMoves_same_board. }
  split; [|split].
  - intros pos. by apply isValid_same_board.
  - exact Hmoves.
  - intros s. by apply makeMove_same_moves.
Qed.

(** C8: two requests with the same board and the same [You.Head] have the
    same list of safe moves and, from the same state of the random source,
    the same outcome of [makeMove], whatever the rest of [You], the turn and
    the game data are. *)
Theorem only_head_of_you_matters (g1 g2 : GameRequest) :
  Request_Board g1 = Request_Board g2 →
  Head (You g1) = Head (You g2) →
  validMoves (Head (You g1)) (Request_Board g1)
  = validMoves (Head (You g2)) (Request_Board g2)
  ∧ (∀ s, makeMove draw g1 s = makeMove draw g2 s).
Proof.
  intros Hboard Hhead.
  assert (Hmoves : validMoves (Head (You g1)) (Request_Board g1)
                   = validMoves (Head (You g2)) (Request_Board g2))
    by (rewrite Hboard, Hhead; reflexivity).
  split; [exact Hmoves|].
  intros s. by apply makeMove_same_moves.
Qed.

End Determinism.

Lemma food_never_matters_witness :
  isFood (mkCoord 4 5) scenarioC ≠ isFood (mkCoord 4 5) scenarioCFood
  ∧ validMoves (mkCoord 5 5) scenarioC = validMoves (mkCoord 5 5) scenarioCFood
  ∧ makeMove counterDraw (requestOn 3 scenarioC me) 7
    = makeMove counterDraw (requestOn 3 scenarioCFood me) 7.
Proof.
  destruct (food_never_matters counterDraw
              (requestOn 3 scenarioC me) (requestOn 3 scenarioCFood me))
    as (_ & Hmoves & Hmove).
  - by repeat split.
  - split; [by vm_compute|]. split; [exact Hmoves | exact (Hmove 7)].
Defined.

Lemma only_head_of_you_matters_witness :
  Body (You laterRequest) ≠ Body (You (requestOn 3 scenarioC me))
  ∧ "left" ∈ validMoves (Head (You laterRequest)) (Request_Board laterRequest)
  ∧ makeMove counterDraw (requestOn 3 scenarioC me) 7
    = makeMove counterDraw laterRequest 7.
Proof.
  destruct (only_head_of_you_matters counterDraw
              (requestOn 3 scenarioC me) laterRequest)
    as (Hmoves & Hmove); [reflexivity | reflexivity |].
  split; [by vm_compute|]. split; [|exact (Hmove 7)].
  rewrite <- Hmoves. left.
Defined.

(** ** The selector always answers *)

Lemma index_in_range {S : Type} (l : list string) (i : Z) (s : S) :
  0 <= i < len l →
  ∃ m, index l i s = Returns (m, s) ∧ l !! Z.to_nat i = Some m ∧ m ∈ l.
Proof.
  intros [Hlo Hhi]. unfold index, len in *.
  destruct (i <? 0) eqn:Hneg; [apply Z.ltb_lt in Hneg; lia|].
  destruct (Z.of_nat (length l) <=? i) eqn:Hbig; [apply Z.leb_le in Hbig; lia|].
  simpl. destruct (lookup_lt_is_Some_2 l (Z.to_nat i)) as [m Hm]; [lia|].
  rewrite Hm. exists m. split; [done|]. split; [done|].
  by eapply list_elem_of_lookup_2.
Qed.

Lemma len_pos {A : Type} (l : list A) : l ≠ [] → 0 < len l.
Proof. destruct l; [done|]. unfold len. simpl. lia. Qed.

Lemma len_zero {A : Type} (l : list A) : (len l =? 0) = true ↔ l = [].
Proof.
  rewrite Z.eqb_eq. unfold len. destruct l; simpl; split; try done; lia.
Qed.

Section Totality.

Context {Source : Type} (draw : Source → Z → Z * Source).

(** What [math/rand] documents of [Intn]: for [n > 0], a number in the
    half-open interval [0, n). *)
Hypothesis draw_range : ∀ s n, 0 < n → 0 <= (draw s n).1 < n.

(** Drawing an index below [len l] and reading [l] there, as both branches
    of the selector do. *)
Lemma pick_returns (l : list string) (s : Source) :
  l ≠ [] →
  ∃ m,
    (i <- Intn draw (len l) ;;
     move <- index l i ;;
     ret {| Move := move; Response_Shout := EmptyString |}) s
    = Returns ({| Move := m; Response_Shout := EmptyString |},
               (draw s (len l)).2)
    ∧ l !! Z.to_nat (draw s (len l)).1 = Some m
    ∧ m ∈ l.
Proof.
  intros Hl. pose proof (len_pos l Hl) as Hlen.
  pose proof (draw_range s (len l) Hlen) as Hi.
  unfold bind, Intn.
  destruct (len l <=? 0) eqn:Hle; [apply Z.leb_le in Hle; lia|].
  destruct (draw s (len l)) as [i s'] eqn:Hdraw. simpl in Hi |- *.
  destruct (index_in_range l i s' Hi) as (m & -> & Hm & Hin).
  exists m. by repeat split.
Qed.

Lemma randomMove_returns (s : Source) :
  ∃ m, randomMove draw s
       = Returns ({| Move := m; Response_Shout := EmptyString |},
                  (draw s 4).2)
       ∧ m ∈ directions.
Proof.
  destruct (pick_returns directions s) as (m & Hrun & _ & Hm); [done|].
  exists m. by split.
Qed.

Lemma makeMove_returns (game : GameRequest) (s : Source) :
  ∃ m s', makeMove draw game s
          = Returns ({| Move := m; Response_Shout := EmptyString |}, s')
          ∧ m ∈ directions.
Proof.
  unfold makeMove.
  destruct (len (validMoves (Head (You game)) (Request_Board game)) =? 0)
    eqn:Hempty.
  - destruct (randomMove_returns s) as (m & Hrun & Hm). by exists m, (draw s 4).2.
  - destruct (pick_returns (validMoves (Head (You game)) (Request_Board game)) s)
      as (m & Hrun & _ & Hm).
    { intros Hnil. apply len_zero in Hnil. congruence. }
    exists m, (draw s (len (validMoves (Head (You game)) (Request_Board game)))).2.
    split; [exact Hrun|]. by eapply validMoves_directions.
Qed.

(** C3: for every request and state of the random source, [makeMove]
    returns (it does not panic) one response whose move is one of "up",
    "down", "left", "right"; so does [randomMove]; in the branch for a
    non-empty list of safe moves the index drawn is within the list and the
    list holds only those four strings, and in the fallback the index drawn
    is within the four-element list. *)
Theorem makeMove_total (game : GameRequest) (s : Source) :
  let moves := validMoves (Head (You game)) (Request_Board game) in
  (∃ resp s', makeMove draw game s = Returns (resp, s')
              ∧ Move resp ∈ ["up"; "down"; "left"; "right"])
  ∧ (∃ resp s', randomMove draw s = Returns (resp, s')
                ∧ Move resp ∈ ["up"; "down"; "left"; "right"])
  ∧ (moves ≠ [] →
     0 <= (draw s (len moves)).1 < len moves
     ∧ is_Some (moves !! Z.to_nat (draw s (len moves)).1)
     ∧ (∀ m, m ∈ moves → m ∈ ["up"; "down"; "left"; "right"]))
  ∧ (moves = [] →
     0 <= (draw s 4).1 < 4
     ∧ is_Some (["up"; "down"; "left"; "right"] !! Z.to_nat (draw s 4).1)).
Proof.
  intros moves. split; [|split; [|split]].
  - destruct (makeMove_returns game s) as (m & s' & Hrun & Hm).
    by exists {| Move := m; Response_Shout := EmptyString |}, s'.
  - destruct (randomMove_returns s) as (m & Hrun & Hm).
    by exists {| Move := m; Response_Shout := EmptyString |}, (draw s 4).2.
  - intros Hne. split; [by apply draw_range, len_pos|]. split.
    + destruct (pick_returns moves s Hne) as (m & _ & Hm & _). by exists m.
    + intros m. apply validMoves_directions.
  - intros _. split; [by apply draw_range|].
    destruct (pick_returns directions s) as (m & _ & Hm & _); [done|].
    by exists m.
Qed.

(** C4: when the list of safe moves is empty, [makeMove] is [randomMove]:
    it returns one of the four direction strings, and two requests whose
    lists of safe moves are both empty get, from the same state of the
    random source, the same outcome, whatever their boards are. *)
Theorem fallback_ignores_board (g1 g2 : GameRequest) (s : Source) :
  validMoves (Head (You g1)) (Request_Board g1) = [] →
  validMoves (Head (You g2)) (Request_Board g2) = [] →
  makeMove draw g1 s = randomMove draw s
  ∧ makeMove draw g1 s = makeMove draw g2 s
  ∧ (∃ resp s', makeMove draw g1 s = Returns (resp, s')
                ∧ Move resp ∈ ["up"; "down"; "left"; "right"]).
Proof.
  intros H1 H2. rewrite !makeMove_fallback by done.
  split; [done|]. split; [done|].
  destruct (randomMove_returns s) as (m & Hrun & Hm).
  by exists {| Move := m; Response_Shout := EmptyString |}, (draw s 4).2.
Qed.

(** C9: every response [makeMove] or [randomMove] returns has the empty
    string as its shout, so that only the member [move] is written for it;
    and [makeMove] does return a response. *)
Theorem shout_always_empty (game : GameRequest) (s : Source) :
  (∀ resp s', makeMove draw game s = Returns (resp, s') →
     Response_Shout resp = EmptyString
     ∧ encodedMembers resp = [("move", Move resp)])
  ∧ (∀ resp s', randomMove draw s = Returns (resp, s') →
       Response_Shout resp = EmptyString
       ∧ encodedMembers resp = [("move", Move resp)])
  ∧ (∃ resp s', makeMove draw game s = Returns (resp, s')
                ∧ Response_Shout resp = EmptyString).
Proof.
  split; [|split].
  - intros resp s' Hrun.
    destruct (makeMove_returns game s) as (m & s0 & Hrun0 & _).
    rewrite Hrun0 in Hrun. by injection Hrun as <- <-.
  - intros resp s' Hrun.
    destruct (randomMove_returns s) as (m & Hrun0 & _).
    rewrite Hrun0 in Hrun. by injection Hrun as <- <-.
  - destruct (makeMove_returns game s) as (m & s0 & Hrun0 & _).
    by exists {| Move := m; Response_Shout := EmptyString |}, s0.
Qed.

End Totality.

Lemma makeMove_total_witness :
  ∃ resp s', makeMove counterDraw (requestOn 3 scenarioC me) 7
             = Returns (resp, s')
             ∧ Move resp ∈ ["up"; "down"; "left"; "right"].
Proof.
  exact (proj1 (makeMove_total counterDraw counterDraw_range
                  (requestOn 3 scenarioC me) 7)).
Defined.

Lemma fallback_ignores_board_witness :
  Request_Board (requestOn 3 scenarioD coiled)
  ≠ Request_Board (requestOn 9 scenarioD' me)
  ∧ makeMove counterDraw (requestOn 3 scenarioD coiled) 6
    = makeMove counterDraw (requestOn 9 scenarioD' me) 6.
Proof.
  split; [by vm_compute|].
  apply (fallback_ignores_board counterDraw counterDraw_range
           (requestOn 3 scenarioD coiled) (requestOn 9 scenarioD' me) 6);
    reflexivity.
Defined.

Lemma shout_always_empty_witness :
  ∃ resp s', makeMove counterDraw (requestOn 3 scenarioC me) 7
             = Returns (resp, s')
             ∧ Response_Shout resp = EmptyString.
Proof.
  exact (proj2 (proj2 (shout_always_empty counterDraw counterDraw_range
                         (requestOn 3 scenarioC me) 7))).
Defined.

(** ** The scenarios of the specification, run on the embedding *)

(** Scenario A: alone in the middle of the board, every direction is safe. *)
Example scenarioA_all_safe :
  validMoves (mkCoord 5 5) (loneBoard (mkCoord 5 5))
  = ["left"; "right"; "down"; "up"].
Proof. reflexivity. Qed.

(** Scenario B: in column 0 the move to the left is dropped. *)
Example scenarioB_left_dropped :
  validMoves (mkCoord 0 5) (loneBoard (mkCoord 0 5)) = ["right"; "down"; "up"].
Proof. reflexivity. Qed.

(** Scenario D: surrounded, the selector still answers, from the full list
    of directions. *)
Example scenarioD_fallback :
  validMoves (mkCoord 5 5) scenarioD = []
  ∧ makeMove counterDraw (requestOn 3 scenarioD coiled) 6
    = Returns ({| Move := "left"; Response_Shout := EmptyString |}, 7).
Proof. split; reflexivity. Qed.

(** The lower bound of the board is two rows further down than the upper
    one: from the last row (y = 10) and from the row below it the move down
    is still kept, and dropped only from y = 12. *)
Example rows_below_the_board :
  "down" ∈ validMoves (mkCoord 5 10) (loneBoard (mkCoord 5 10))
  ∧ "down" ∈ validMoves (mkCoord 5 11) (loneBoard (mkCoord 5 11))
  ∧ "down" ∉ validMoves (mkCoord 5 12) (loneBoard (mkCoord 5 12)).
Proof.
  split; [|split].
  - apply (validMoves_dir _ _ MoveDown). reflexivity.
  - apply (validMoves_dir _ _ MoveDown). reflexivity.
  - intros H. apply (validMoves_dir _ _ MoveDown) in H. discriminate H.
Qed.

(** ** Further properties of the board predicates *)

(** X1: [isFood] answers true exactly for the coordinates listed in
    [board.Food]; with no food it is false everywhere. *)
Theorem isFood_finds_food (pos : Coord) (board : Board) :
  isFood pos board = true ↔ pos ∈ Food board.
Proof.
  unfold isFood. induction (Food board) as [|coord rest IH]; simpl.
  - split; [discriminate | intros H; inversion H].
  - rewrite elem_of_cons, <- IH, <- coord_eqb_true.
    destruct ((Y coord =? Y pos) && (X coord =? X pos)); intuition congruence.
Qed.

Lemma isSnake_loop_app (pos : Coord) (snakes1 snakes2 : list Battlesnake) :
  isSnake_loop pos (snakes1 ++ snakes2)
  = isSnake_loop pos snakes1 || isSnake_loop pos snakes2.
Proof.
  induction snakes1 as [|snake rest IH]; simpl; [reflexivity|].
  destruct (isSnake_body pos (Body snake)); [reflexivity|].
  destruct ((Y (Head snake) =? Y pos) && (X (Head snake) =? X pos));
    [reflexivity | exact IH].
Qed.

Lemma isValid_withSnakes (pos : Coord) (board : Board)
    (extra : list Battlesnake) :
  isValid pos (withSnakes extra board)
  = isValid pos board && negb (isSnake_loop pos extra).
Proof.
  unfold isValid, isSnake.
  change (isEdge pos (withSnakes extra board)) with (isEdge pos board).
  change (Snakes (withSnakes extra board)) with (Snakes board ++ extra).
  rewrite isSnake_loop_app, negb_orb. apply andb_assoc.
Qed.

Lemma flag_sublist (m : string) (b' b : bool) :
  (b' = true → b = true) →
  (if b' then [m] else []) `sublist_of` (if b then [m] else []).
Proof.
  destruct b', b; intros Himp; try reflexivity.
  - discriminate (Himp eq_refl).
  - apply sublist_nil_l.
Qed.

(** X2: listing further snakes on a board can only take safe moves away:
    the safe moves on the enlarged board are a subsequence of those on the
    original one, and a move kept there leads to a cell none of the new
    snakes covers. *)
Theorem more_snakes_fewer_moves (pos : Coord) (board : Board)
    (extra : list Battlesnake) :
  validMoves pos (withSnakes extra board) `sublist_of` validMoves pos board
  ∧ (∀ d, dirName d ∈ validMoves pos (withSnakes extra board)
          ↔ dirName d ∈ validMoves pos board
            ∧ isSnake_loop (offset d pos) extra = false).
Proof.
  split.
  - rewrite (validMoves_of_flags pos (withSnakes extra board) _ _ _ _
               eq_refl eq_refl eq_refl eq_refl).
    rewrite (validMoves_of_flags pos board _ _ _ _
               eq_refl eq_refl eq_refl eq_refl).
    repeat apply sublist_app; apply flag_sublist;
      rewrite isValid_withSnakes, andb_true_iff; tauto.
  - intros d. rewrite !validMoves_dir, isValid_withSnakes.
    rewrite andb_true_iff, negb_true_iff. reflexivity.
Qed.

(** X3: the safe moves depend on the snakes only through the four cells
    next to the head: two boards of the same size on which the same
    neighbours are occupied give the same list. *)
Theorem validMoves_local (pos : Coord) (b1 b2 : Board) :
  Height b1 = Height b2 →
  Width b1 = Width b2 →
  (∀ d, occupied (offset d pos) b1 ↔ occupied (offset d pos) b2) →
  validMoves pos b1 = validMoves pos b2.
Proof.
  intros Hh Hw Hocc.
  assert (Hvalid : ∀ d, isValid (offset d pos) b1 = isValid (offset d pos) b2).
  { intros d. unfold isValid, isEdge. rewrite Hh, Hw. f_equal. f_equal.
    specialize (Hocc d). rewrite <- !isSnake_true in Hocc.
    destruct (isSnake (offset d pos) b1), (isSnake (offset d pos) b2);
      intuition congruence. }
  rewrite (validMoves_of_flags pos b1 _ _ _ _
             (Hvalid MoveLeft) (Hvalid MoveRight)
             (Hvalid MoveDown) (Hvalid MoveUp)).
  symmetry. apply validMoves_of_flags; reflexivity.
Qed.

Lemma validMoves_local_witness :
  Snakes (withSnakes [bystander] scenarioC) ≠ Snakes scenarioC
  ∧ validMoves (mkCoord 5 5) scenarioC
    = validMoves (mkCoord 5 5) (withSnakes [bystander] scenarioC).
Proof.
  split; [by vm_compute|].
  apply validMoves_local; [reflexivity | reflexivity |].
  intros d. rewrite <- !isSnake_true. by destruct d; vm_compute.
Defined.

(** ** Walls *)

Lemma all_edge_no_moves (pos : Coord) (board : Board) :
  (∀ c, isEdge c board = true) → validMoves pos board = [].
Proof.
  intros Hedge.
  apply (validMoves_of_flags pos board false false false false);
    unfold isValid; by rewrite Hedge.
Qed.

(** X6: for a head standing on a board whose size does not overflow, "left"
    is safe exactly when the head is not in column 0 and the cell to its
    left is free, "right" when it is not in the last column and the cell to
    its right is free, "up" when it is not in row 0 and the cell above is
    free, and "down" whenever the cell below is free: the bottom row is no
    wall. *)
Theorem on_board_moves (pos : Coord) (board : Board) :
  1 <= Width board <= max_int →
  1 <= Height board < max_int →
  onBoard pos board →
  ("left" ∈ validMoves pos board
   ↔ 1 <= X pos ∧ ¬ occupied (mkCoord (X pos - 1) (Y pos)) board)
  ∧ ("right" ∈ validMoves pos board
     ↔ X pos <= Width board - 2
       ∧ ¬ occupied (mkCoord (X pos + 1) (Y pos)) board)
  ∧ ("down" ∈ validMoves pos board
     ↔ ¬ occupied (mkCoord (X pos) (Y pos + 1)) board)
  ∧ ("up" ∈ validMoves pos board
     ↔ 1 <= Y pos ∧ ¬ occupied (mkCoord (X pos) (Y pos - 1)) board).
Proof.
  intros Hw Hh [Hx Hy].
  assert (Hmin : min_int < -1) by (by vm_compute).
  assert (Hw1 : int_sub (Width board) 1 = Width board - 1)
    by (apply int_sub_exact; lia).
  assert (Hh1 : int_add (Height board) 1 = Height board + 1)
    by (apply int_add_exact; lia).
  assert (Hxl : int_sub (X pos) 1 = X pos - 1) by (apply int_sub_exact; lia).
  assert (Hxr : int_add (X pos) 1 = X pos + 1) by (apply int_add_exact; lia).
  assert (Hyd : int_add (Y pos) 1 = Y pos + 1) by (apply int_add_exact; lia).
  assert (Hyu : int_sub (Y pos) 1 = Y pos - 1) by (apply int_sub_exact; lia).
  split; [|split; [|split]].
  - rewrite (validMoves_dir pos board MoveLeft), isValid_true, isSnake_false,
      isEdge_false. simpl. rewrite Hw1, Hh1, Hxl. intuition lia.
  - rewrite (validMoves_dir pos board MoveRight), isValid_true, isSnake_false,
      isEdge_false. simpl. rewrite Hw1, Hh1, Hxr. intuition lia.
  - rewrite (validMoves_dir pos board MoveDown), isValid_true, isSnake_false,
      isEdge_false. simpl. rewrite Hw1, Hh1, Hyd. intuition lia.
  - rewrite (validMoves_dir pos board MoveUp), isValid_true, isSnake_false,
      isEdge_false. simpl. rewrite Hw1, Hh1, Hyu. intuition lia.
Qed.

Lemma on_board_moves_witness :
  onBoard (mkCoord 0 10) (loneBoard (mkCoord 0 10))
  ∧ ("down" ∈ validMoves (mkCoord 0 10) (loneBoard (mkCoord 0 10)))
  ∧ ("left" ∉ validMoves (mkCoord 0 10) (loneBoard (mkCoord 0 10))).
Proof.
  assert (Hon : onBoard (mkCoord 0 10) (loneBoard (mkCoord 0 10)))
    by (by vm_compute).
  destruct (on_board_moves (mkCoord 0 10) (loneBoard (mkCoord 0 10)))
    as (Hleft & _ & Hdown & _); [by vm_compute | by vm_compute | exact Hon |].
  split; [exact Hon|]. split.
  - apply Hdown. apply isSnake_false. by vm_compute.
  - intros Hin. apply Hleft in Hin as [Hcol _]. by vm_compute in Hcol.
Defined.

(** X7: the list of safe moves is empty, the case in which [makeMove]
    takes its fallback, exactly when each of the four cells next to the head
    is rejected by the bounds rule or occupied by a snake. *)
Theorem validMoves_empty_iff (pos : Coord) (board : Board) :
  validMoves pos board = []
  ↔ (∀ d, isEdge (offset d pos) board = true ∨ occupied (offset d pos) board).
Proof.
  split.
  - intros Hnil d.
    destruct (isValid (offset d pos) board) eqn:Hd.
    + apply validMoves_dir in Hd. rewrite Hnil in Hd. inversion Hd.
    + unfold isValid in Hd. apply andb_false_iff in Hd as [He | Hs].
      * left. by apply negb_false_iff.
      * right. apply isSnake_true. by apply negb_false_iff.
  - intros Hall.
    assert (Hflag : ∀ d, isValid (offset d pos) board = false).
    { intros d. unfold isValid. destruct (Hall d) as [He | Hs].
      - by rewrite He.
      - apply isSnake_true in Hs. rewrite Hs. apply andb_false_r. }
    apply (validMoves_of_flags pos board false false false false);
      apply Hflag.
Qed.

(** X12: while no size overflows, a cell the bounds rule accepts on a board
    is still accepted on every board at least as wide and as high. *)
Theorem bigger_board_keeps_cells (pos : Coord) (b1 b2 : Board) :
  min_int < Width b1 → Width b1 <= Width b2 → Width b2 <= max_int →
  min_int <= Height b1 → Height b1 <= Height b2 → Height b2 < max_int →
  isEdge pos b1 = false → isEdge pos b2 = false.
Proof.
  intros Hw1 Hw Hw2 Hh1 Hh Hh2. rewrite !isEdge_false.
  rewrite !int_sub_exact, !int_add_exact by lia. lia.
Qed.

Lemma bigger_board_keeps_cells_witness :
  isEdge (mkCoord 10 12)
    {| Height := 19; Width := 19; Food := []; Snakes := [] |} = false.
Proof.
  apply (bigger_board_keeps_cells _ scenarioC); by vm_compute.
Defined.

(** X13: a head in the last column an [int] can name never gets "right",
    and one in the last row never gets "down": the step wraps around to the
    most negative [int], which the bounds rule rejects on every board. *)
Theorem no_step_past_max_int (pos : Coord) (board : Board) :
  (X pos = max_int → "right" ∉ validMoves pos board)
  ∧ (Y pos = max_int → "down" ∉ validMoves pos board).
Proof.
  split; intros Hmax Hin.
  - apply (validMoves_dir pos board MoveRight), isValid_true in Hin as [He _].
    apply isEdge_false in He. simpl in He. rewrite Hmax in He.
    change (int_add max_int 1) with min_int in He.
    assert (min_int < 0) by (by vm_compute). lia.
  - apply (validMoves_dir pos board MoveDown), isValid_true in Hin as [He _].
    apply isEdge_false in He. simpl in He. rewrite Hmax in He.
    change (int_add max_int 1) with min_int in He.
    assert (min_int < 0) by (by vm_compute). lia.
Qed.

Lemma no_step_past_max_int_witness :
  "right" ∉ validMoves (mkCoord max_int 5) tallBoard.
Proof.
  apply (proj1 (no_step_past_max_int (mkCoord max_int 5) tallBoard)).
  reflexivity.
Defined.

(** ** Boards without a safe cell *)

Section Fallback.

Context {Source : Type} (draw : Source → Z → Z * Source).

(** X4: on a board of width at most 0 or of height below -1 the bounds rule
    rejects every coordinate, so no move is safe and [makeMove] is
    [randomMove]; a request decoded from a body without a board is such a
    request. *)
Theorem degenerate_board_falls_back (game : GameRequest) (s : Source) :
  min_int < Width (Request_Board game) <= 0
  ∨ min_int <= Height (Request_Board game) < -1 →
  (∀ pos, isEdge pos (Request_Board game) = true)
  ∧ validMoves (Head (You game)) (Request_Board game) = []
  ∧ makeMove draw game s = randomMove draw s.
Proof.
  intros Hsize.
  assert (Hedge : ∀ pos, isEdge pos (Request_Board game) = true).
  { assert (Hmax : -1 < max_int) by (by vm_compute).
    intros pos. apply isEdge_true. destruct Hsize as [Hw | Hh].
    - rewrite int_sub_exact by lia. lia.
    - rewrite (int_add_exact (Height (Request_Board game))) by lia. lia. }
  split; [exact Hedge|].
  assert (Hnil : validMoves (Head (You game)) (Request_Board game) = [])
    by (by apply all_edge_no_moves).
  split; [exact Hnil | by apply makeMove_fallback].
Qed.

(** X5: on a board whose height is the largest [int], [h + 1] wraps around
    and the bounds rule rejects every coordinate, so no move is safe and
    [makeMove] is [randomMove]. *)
Theorem max_height_falls_back (game : GameRequest) (s : Source) :
  Height (Request_Board game) = max_int →
  (∀ pos, isEdge pos (Request_Board game) = true)
  ∧ validMoves (Head (You game)) (Request_Board game) = []
  ∧ makeMove draw game s = randomMove draw s.
Proof.
  intros Hh.
  assert (Hedge : ∀ pos, isEdge pos (Request_Board game) = true).
  { intros pos. apply isEdge_true. rewrite Hh.
    change (int_add max_int 1) with min_int.
    assert (min_int < 0) by (by vm_compute). lia. }
  split; [exact Hedge|].
  assert (Hnil : validMoves (Head (You game)) (Request_Board game) = [])
    by (by apply all_edge_no_moves).
  split; [exact Hnil | by apply makeMove_fallback].
Qed.

End Fallback.

Lemma degenerate_board_falls_back_witness :
  validMoves (Head (You zeroRequest)) (Request_Board zeroRequest) = []
  ∧ makeMove counterDraw zeroRequest 1 = randomMove counterDraw 1.
Proof.
  destruct (degenerate_board_falls_back counterDraw zeroRequest 1)
    as (_ & Hnil & Hrun); [left; by vm_compute|].
  by split.
Defined.

Lemma max_height_falls_back_witness :
  validMoves (mkCoord 5 5) tallBoard = []
  ∧ makeMove counterDraw (requestOn 3 tallBoard me) 1
    = randomMove counterDraw 1.
Proof.
  destruct (max_height_falls_back counterDraw (requestOn 3 tallBoard me) 1)
    as (_ & Hnil & Hrun); [reflexivity|].
  by split.
Defined.

(** ** What the selector returns *)

Lemma directions_dirName (m : string) :
  m ∈ directions → ∃ d, m = dirName d.
Proof.
  unfold directions. rewrite !elem_of_cons, elem_of_nil.
  intros [-> | [-> | [-> | [-> | []]]]];
    [by exists MoveUp | by exists MoveDown | by exists MoveLeft
    | by exists MoveRight].
Qed.

Section Selection.

Context {Source : Type} (draw : Source → Z → Z * Source).

(** What [math/rand] documents of [Intn]: for [n > 0], a number in the
    half-open interval [0, n). *)
Hypothesis draw_range : ∀ s n, 0 < n → 0 <= (draw s n).1 < n.

(** The two branches of [makeMove]: one draw bounded by the size of the
    list read, and the element at the drawn index. *)
Lemma makeMove_fallback_outcome (game : GameRequest) (s : Source) :
  validMoves (Head (You game)) (Request_Board game) = [] →
  ∃ m, directions !! Z.to_nat (draw s 4).1 = Some m
       ∧ makeMove draw game s
         = Returns ({| Move := m; Response_Shout := EmptyString |},
                    (draw s 4).2).
Proof.
  intros Hnil. rewrite (makeMove_fallback draw game s Hnil).
  destruct (pick_returns draw draw_range directions s) as (m & Hrun & Hm & _);
    [done|].
  exists m. split; [exact Hm | exact Hrun].
Qed.

Lemma makeMove_safe_outcome (game : GameRequest) (s : Source) :
  let moves := validMoves (Head (You game)) (Request_Board game) in
  moves ≠ [] →
  ∃ m, moves !! Z.to_nat (draw s (len moves)).1 = Some m
       ∧ makeMove draw game s
         = Returns ({| Move := m; Response_Shout := EmptyString |},
                    (draw s (len moves)).2).
Proof.
  intros moves Hne.
  destruct (pick_returns draw draw_range moves s Hne) as (m & Hrun & Hm & _).
  exists m. split; [exact Hm|].
  unfold makeMove. fold moves.
  destruct (len moves =? 0) eqn:Hlen; [|exact Hrun].
  apply len_zero in Hlen. contradiction.
Qed.

(** X9: [makeMove] draws from the random source once, with the number of
    safe moves as bound (4 when there is none), and answers with the element
    at the drawn index of the safe moves (of up, down, left, right when
    there is none); the source is left in the state after that one draw. *)
Theorem makeMove_draws_once (game : GameRequest) (s : Source) :
  let moves := validMoves (Head (You game)) (Request_Board game) in
  let pool :=
    if decide (moves = []) then ["up"; "down"; "left"; "right"] else moves in
  ∃ m, pool !! Z.to_nat (draw s (len pool)).1 = Some m
       ∧ makeMove draw game s
         = Returns ({| Move := m; Response_Shout := EmptyString |},
                    (draw s (len pool)).2).
Proof.
  intros moves pool. unfold pool.
  destruct (decide (moves = [])) as [Hnil | Hne].
  - exact (makeMove_fallback_outcome game s Hnil).
  - exact (makeMove_safe_outcome game s Hne).
Qed.

(** X8: the move [makeMove] returns names a direction, and the cell it
    leads to is valid exactly when the request has a safe move at all: a
    safe move is never passed over, and the fallback is never safe. *)
Theorem makeMove_safe_when_possible (game : GameRequest) (s : Source) :
  ∃ d s',
    makeMove draw game s
    = Returns ({| Move := dirName d; Response_Shout := EmptyString |}, s')
    ∧ (dirName d ∈ validMoves (Head (You game)) (Request_Board game)
       ↔ validMoves (Head (You game)) (Request_Board game) ≠ [])
    ∧ (isValid (offset d (Head (You game))) (Request_Board game) = true
       ↔ validMoves (Head (You game)) (Request_Board game) ≠ []).
Proof.
  set (moves := validMoves (Head (You game)) (Request_Board game)).
  destruct (decide (moves = [])) as [Hnil | Hne].
  - destruct (makeMove_fallback_outcome game s Hnil) as (m & Hm & Hrun).
    apply list_elem_of_lookup_2 in Hm.
    destruct (directions_dirName m Hm) as [d ->].
    exists d. eexists. split; [exact Hrun|].
    rewrite <- (validMoves_dir (Head (You game)) (Request_Board game) d).
    fold moves. rewrite Hnil.
    split; (split; [intros Hin; inversion Hin | done]).
  - destruct (makeMove_safe_outcome game s Hne) as (m & Hm & Hrun).
    apply list_elem_of_lookup_2 in Hm.
    destruct (proj1 (validMoves_elem _ _ _) Hm) as (d & -> & Hd).
    exists d. eexists. split; [exact Hrun|].
    rewrite <- (validMoves_dir (Head (You game)) (Request_Board game) d) in Hd.
    rewrite <- (validMoves_dir (Head (You game)) (Request_Board game) d).
    by split.
Qed.

(** X10: when exactly one move is safe, [makeMove] returns it, whatever
    the random source hands out. *)
Theorem single_safe_move_forced (game : GameRequest) (s : Source) (m : string) :
  validMoves (Head (You game)) (Request_Board game) = [m] →
  makeMove draw game s
  = Returns ({| Move := m; Response_Shout := EmptyString |}, (draw s 1).2).
Proof.
  intros Hone.
  destruct (makeMove_safe_outcome game s) as (m' & Hm' & Hrun);
    [by rewrite Hone|].
  rewrite Hone in Hm', Hrun. change (len [m]) with 1 in Hm', Hrun.
  pose proof (draw_range s 1 ltac:(lia)) as Hi.
  replace (draw s 1).1 with 0 in Hm' by lia.
  simpl in Hm'. injection Hm' as <-. exact Hrun.
Qed.

End Selection.

Lemma makeMove_draws_once_witness :
  makeMove counterDraw (requestOn 3 scenarioC me) 7
  = Returns ({| Move := "down"; Response_Shout := EmptyString |}, 8).
Proof.
  destruct (makeMove_draws_once counterDraw counterDraw_range
              (requestOn 3 scenarioC me) 7) as (m & Hm & Hrun).
  vm_compute in Hm. injection Hm as <-. exact Hrun.
Defined.

Lemma makeMove_safe_when_possible_witness :
  ∃ d s',
    makeMove counterDraw (requestOn 3 scenarioD coiled) 6
    = Returns ({| Move := dirName d; Response_Shout := EmptyString |}, s')
    ∧ isValid (offset d (mkCoord 5 5)) scenarioD = false.
Proof.
  destruct (makeMove_safe_when_possible counterDraw counterDraw_range
              (requestOn 3 scenarioD coiled) 6) as (d & s' & Hrun & _ & Hsafe).
  exists d, s'. split; [exact Hrun|].
  destruct (isValid (offset d (mkCoord 5 5)) scenarioD) eqn:Hd; [|reflexivity].
  by apply Hsafe in Hd.
Defined.

Lemma single_safe_move_forced_witness :
  makeMove counterDraw (requestOn 3 selfBlocked me) 2
  = Returns ({| Move := "down"; Response_Shout := EmptyString |}, 3).
Proof.
  apply (single_safe_move_forced counterDraw counterDraw_range
           (requestOn 3 selfBlocked me) 2 "down").
  reflexivity.
Defined.

(** X11: every safe move can be the answer: for each element of the list
    of safe moves there is a state of the counter source from which
    [makeMove] returns it. *)
Theorem every_safe_move_selectable (game : GameRequest) (m : string) :
  m ∈ validMoves (Head (You game)) (Request_Board game) →
  ∃ s, makeMove counterDraw game s
       = Returns ({| Move := m; Response_Shout := EmptyString |}, s + 1).
Proof.
  intros Hin.
  set (moves := validMoves (Head (You game)) (Request_Board game)) in *.
  destruct (proj1 (list_elem_of_lookup _ _) Hin) as [i Hi].
  pose proof (lookup_lt_Some _ _ _ Hi) as Hlt.
  exists (Z.of_nat i).
  destruct (makeMove_safe_outcome counterDraw counterDraw_range game
              (Z.of_nat i)) as (m' & Hm' & Hrun).
  { fold moves. intros Hnil. rewrite Hnil in Hi. discriminate Hi. }
  fold moves in Hm', Hrun.
  simpl in Hm', Hrun. unfold len in Hm'.
  rewrite Z.mod_small, Nat2Z.id in Hm' by lia.
  rewrite Hi in Hm'. injection Hm' as <-. exact Hrun.
Qed.

Lemma every_safe_move_selectable_witness :
  ∃ s, makeMove counterDraw (requestOn 3 scenarioC me) s
       = Returns ({| Move := "left"; Response_Shout := EmptyString |}, s + 1).
Proof.
  apply (every_safe_move_selectable (requestOn 3 scenarioC me) "left").
  left.
Defined.
